(** * mongolock: a distributed lock kept in one MongoDB collection

    A shallow embedding of [src/mongolock.py].  The methods of [MongoLock]
    are written as programs over the operations they perform on the outside
    world (the pymongo collection and the wall clock); a store interprets
    these operations.  Two stores are given: MongoDB's collection, where
    [_id] is unique, and a collection whose identity invariant is broken. *)

From Stdlib Require Import ZArith List Lia.
From stdpp Require Import gmap strings list fin_maps.

Local Open Scope Z_scope.

(** ** Data model *)

(** [datetime] values and [timedelta] values are integers in one unit (the
    microsecond, the resolution of Python's [datetime]).  The numeric
    [timeout] and [expire] arguments of the methods are durations in the
    same unit.

    Python's [datetime] ends at both sides: an addition that leaves
    [datetime_min .. datetime_max] raises [OverflowError].  The programs
    below add without that test: they follow the code on the runs whose
    sums are [representable]. *)
Definition datetime := Z.
Definition timedelta := Z.

(** [datetime.min] is 0001-01-01 00:00:00 and [datetime.max] is
    9999-12-31 23:59:59.999999, in microseconds since 1970. *)
Definition datetime_min : datetime := -62135596800000000.
Definition datetime_max : datetime := 253402300799999999.

Definition representable (t : datetime) : Prop :=
  datetime_min <= t <= datetime_max.

(** The fields of a lock document besides its [_id]. *)
Record fields := Fields {
  d_locked : bool;
  d_owner : option string;
  d_created : option datetime;
  d_expire : option datetime
}.

#[global] Instance fields_eq_dec : EqDecision fields.
Proof. solve_decision. Defined.

(** The exceptions of the module, [TypeError] for the operations Python
    refuses on [None], and [Exception] for whatever a caller's code raises. *)
Inductive exn :=
| MongoLockException
| MongoLockLocked
| TypeError
| Exception (msg : string).

(** The three query documents the class sends. *)
Inductive query :=
| ById (key : string)
    (* {'_id': key} *)
| ByIdOwner (key owner : string)
    (* {'_id': key, 'owner': owner} *)
| FreeOrExpired (key : string) (dtnow : datetime).
    (* {'$or': [{'_id': key, 'locked': False},
                {'_id': key, 'expire': {'$lt': dtnow}}]} *)

(** The two update documents: a document without operators replaces every
    field but [_id]; [{'$set': {'expire': e}}] writes one field. *)
Inductive update_doc :=
| Replace (d : fields)
| SetExpire (e : datetime).

Inductive insert_result := Inserted | DuplicateKeyError.

(** ** Operations on the outside world

    [sleep] stands for [time.sleep], the operation [DEFAULT_SLEEP_STEP] is
    named after. *)
Inductive op : Type -> Type :=
| utcnow : op datetime
| sleep (step : timedelta) : op unit
| coll_insert (key : string) (d : fields) : op insert_result
| coll_update (q : query) (u : update_doc) : op Z
| coll_find_and_modify (q : query) (d : fields) : op (option fields)
| coll_find_one (q : query) : op (option fields).

(** What an observer sees of one operation: the call and its reply. *)
Inductive event :=
| EvNow (t : datetime)
| EvSleep (step : timedelta)
| EvInsert (key : string) (d : fields) (r : insert_result)
| EvUpdate (q : query) (u : update_doc) (n : Z)
| EvFindAndModify (q : query) (d : fields) (r : option fields)
| EvFindOne (q : query) (r : option fields).

Definition event_of {X : Type} (o : op X) : X -> event :=
  match o in op X return X -> event with
  | utcnow => fun t => EvNow t
  | sleep step => fun _ => EvSleep step
  | coll_insert key d => fun r => EvInsert key d r
  | coll_update q u => fun n => EvUpdate q u n
  | coll_find_and_modify q d => fun r => EvFindAndModify q d r
  | coll_find_one q => fun r => EvFindOne q r
  end.

Definition is_sleep (e : event) : bool :=
  match e with EvSleep _ => true | _ => false end.

Definition is_update (e : event) : bool :=
  match e with EvUpdate _ _ _ => true | _ => false end.

Definition is_release (e : event) : bool :=
  match e with EvFindAndModify _ _ _ => true | _ => false end.

(** ** Programs

    A method is a tree of operations: it returns, raises, or performs an
    operation and goes on with the reply.  [Spin] is a loop that has used up
    the fuel it was given and is still running. *)
Inductive prog (A : Type) : Type :=
| Ret (a : A)
| Raise (e : exn)
| Spin
| Vis {X : Type} (o : op X) (k : X -> prog A).

Arguments Ret {A} a.
Arguments Raise {A} e.
Arguments Spin {A}.
Arguments Vis {A X} o k.

Fixpoint bind {A B : Type} (p : prog A) (f : A -> prog B) : prog B :=
  match p with
  | Ret a => f a
  | Raise e => Raise e
  | Spin => Spin
  | Vis o k => Vis o (fun x => bind (k x) f)
  end.

Definition call {X : Type} (o : op X) : prog X := Vis o Ret.

(** [try: p except Exception], with the exception as a value. *)
Fixpoint catch {A : Type} (p : prog A) : prog (exn + A) :=
  match p with
  | Ret a => Ret (inr a)
  | Raise e => Ret (inl e)
  | Spin => Spin
  | Vis o k => Vis o (fun x => catch (k x))
  end.

Declare Scope prog_scope.
Delimit Scope prog_scope with prog.
Bind Scope prog_scope with prog.
Notation "x <- p ;; q" := (bind p (fun x => q))
  (at level 20, p at level 99, q at level 200, right associativity) : prog_scope.
Local Open Scope prog_scope.

(** ** Python values the methods test *)

(** [if x] on an optional number: [None] and [0] are false. *)
Definition truthy (x : option Z) : bool :=
  match x with
  | None => false
  | Some n => negb (n =? 0)
  end.

(** [timedelta(seconds=x)]: a [TypeError] on [None]. *)
Definition timedelta_seconds (x : option Z) : prog timedelta :=
  match x with
  | None => Raise TypeError
  | Some n => Ret n
  end.

(** What [_try_get_lock] hands back to its caller. *)
Inductive pyval := PyNone | PyBool (b : bool).

Definition is_not_None (v : pyval) : bool :=
  match v with
  | PyNone => false
  | PyBool _ => true
  end.

(** ** The methods of [MongoLock] *)

Definition DEFAULT_SLEEP_STEP : timedelta := 100000.

Definition _try_get_lock (key owner : string) (expire : option datetime) : prog pyval :=
  dtnow <- call utcnow ;;
  n <- call (coll_update (FreeOrExpired key dtnow)
               (Replace (Fields true (Some owner) (Some dtnow) expire))) ;;
  if 1 <? n then Raise MongoLockException
  else Ret (PyBool (n =? 1)).

(** The [while True] of [lock]; [fuel] bounds the number of iterations. *)
Fixpoint lock_loop (fuel : nat) (key owner : string) (timeout : option Z)
    (expire : option datetime) (start_time : datetime) : prog bool :=
  match fuel with
  | O => Spin
  | S fuel' =>
      v <- _try_get_lock key owner expire ;;
      if is_not_None v then Ret true
      else
        now <- call utcnow ;;
        dt <- timedelta_seconds timeout ;;
        if start_time + dt <=? now then Ret false
        else lock_loop fuel' key owner timeout expire start_time
  end.

Definition lock (fuel : nat) (key owner : string) (timeout expire : option Z) : prog bool :=
  expire <- (if truthy expire
             then now <- call utcnow ;; dt <- timedelta_seconds expire ;; Ret (Some (now + dt))
             else Ret None) ;;
  created <- call utcnow ;;
  r <- call (coll_insert key (Fields true (Some owner) (Some created) expire)) ;;
  match r with
  | Inserted => Ret true
  | DuplicateKeyError =>
      if negb (truthy timeout) then Ret false
      else
        start_time <- call utcnow ;;
        lock_loop fuel key owner timeout expire start_time
  end.

Definition release (key owner : string) : prog unit :=
  status <- call (coll_find_and_modify (ByIdOwner key owner) (Fields false None None None)) ;;
  match status with
  | None => Raise MongoLockException
  | Some st => if negb (d_locked st) then Raise MongoLockException else Ret tt
  end.

Definition get_lock_info (key : string) : prog (option fields) :=
  call (coll_find_one (ById key)).

Definition touch (key owner : string) : prog unit :=
  lock <- call (coll_find_one (ByIdOwner key owner)) ;;
  match lock with
  | None => Raise MongoLockException
  | Some l =>
      match d_expire l with
      | None => Ret tt
      | Some e =>
          now <- call utcnow ;;
          match d_created l with
          | None => Raise TypeError
          | Some c =>
              _ <- call (coll_update (ByIdOwner key owner) (SetExpire (now + (e - c)))) ;;
              Ret tt
          end
      end
  end.

(** *** The context manager

    [__call__] is a generator with one [yield].  It is written as the code
    before the [yield], which returns the code after it; that code is
    resumed either by [next] or by [throw], and a thrown exception is
    raised at the [yield] itself. *)
Inductive resume := Next | Throw (e : exn).

Definition yield_point (r : resume) : prog unit :=
  match r with
  | Next => Ret tt
  | Throw e => Raise e
  end.

Definition __call__ (fuel : nat) (key owner : string) (timeout expire : option Z)
    : prog (resume -> prog unit) :=
  ok <- lock fuel key owner timeout expire ;;
  if negb ok then
    status <- get_lock_info key ;;
    match status with
    | None => Raise TypeError
    | Some _ => Raise MongoLockLocked
    end
  else
    Ret (fun r => _ <- yield_point r ;; release key owner).

(** [with cm: body] for a [contextlib.contextmanager]: run the generator up
    to its [yield], run the body, then resume the generator with [next]
    when the body returned and with [throw] when it raised.  A generator
    that returns after a [throw] has swallowed the exception. *)
Definition with_stmt (cm : prog (resume -> prog unit)) (body : prog unit) : prog unit :=
  after <- cm ;;
  r <- catch body ;;
  match r with
  | inr _ => after Next
  | inl e => after (Throw e)
  end.

(** ** The outside world *)

Definition query_id (q : query) : string :=
  match q with
  | ById key => key
  | ByIdOwner key _ => key
  | FreeOrExpired key _ => key
  end.

(** Whether the fields of the document with the query's [_id] satisfy the
    rest of the query.  [{'$lt': dtnow}] matches no [null]. *)
Definition matches (q : query) (d : fields) : bool :=
  match q with
  | ById _ => true
  | ByIdOwner _ owner => bool_decide (d_owner d = Some owner)
  | FreeOrExpired _ dtnow =>
      negb (d_locked d)
      || match d_expire d with
         | Some e => e <? dtnow
         | None => false
         end
  end.

Definition apply_update (u : update_doc) (d : fields) : fields :=
  match u with
  | Replace d' => d'
  | SetExpire e => Fields (d_locked d) (d_owner d) (d_created d) (Some e)
  end.

(** BSON keeps a datetime as a whole number of milliseconds: pymongo drops
    the microseconds below the millisecond from every datetime of a
    document, an update or a query it sends, and a datetime read back has
    none. *)
Definition bson_datetime (t : datetime) : datetime := 1000 * (t / 1000).

Arguments bson_datetime : simpl never.

Definition bson_fields (d : fields) : fields :=
  Fields (d_locked d) (d_owner d) (bson_datetime <$> d_created d) (bson_datetime <$> d_expire d).

Definition bson_update (u : update_doc) : update_doc :=
  match u with
  | Replace d => Replace (bson_fields d)
  | SetExpire e => SetExpire (bson_datetime e)
  end.

Definition bson_query (q : query) : query :=
  match q with
  | ById key => ById key
  | ByIdOwner key owner => ByIdOwner key owner
  | FreeOrExpired key dtnow => FreeOrExpired key (bson_datetime dtnow)
  end.

(** The part of pymongo's [Collection] the class uses: [insert],
    [update] (with the [n] of its reply), [find_and_modify] (which returns
    the document as it was) and [find_one]. *)
Class Collection (C : Type) := {
  c_insert : string -> fields -> C -> insert_result * C;
  c_update : query -> update_doc -> C -> Z * C;
  c_find_and_modify : query -> fields -> C -> option fields * C;
  c_find_one : query -> C -> option fields
}.

(** MongoDB: at most one document per [_id]. *)
Definition mongo_find (q : query) (m : gmap string fields) : option fields :=
  match m !! query_id q with
  | Some d => if matches q d then Some d else None
  | None => None
  end.

#[global] Instance mongo : Collection (gmap string fields) := {
  c_insert key d m :=
    match m !! key with
    | Some _ => (DuplicateKeyError, m)
    | None => (Inserted, <[key := d]> m)
    end;
  c_update q u m :=
    match mongo_find q m with
    | Some d => (1, <[query_id q := apply_update u d]> m)
    | None => (0, m)
    end;
  c_find_and_modify q d' m :=
    match mongo_find q m with
    | Some d => (Some d, <[query_id q := d']> m)
    | None => (None, m)
    end;
  c_find_one q m := mongo_find q m
}.

(** A store that lost the identity invariant: rows in a list, several of
    which may carry one key.  Its conditional update changes every row the
    query matches and reports how many. *)
Definition row_matches (q : query) (row : string * fields) : bool :=
  bool_decide (fst row = query_id q) && matches q (snd row).

Definition rows_update (q : query) (u : update_doc) (rows : list (string * fields))
    : list (string * fields) :=
  map (fun row => if row_matches q row then (fst row, apply_update u (snd row)) else row) rows.

Fixpoint rows_replace_first (q : query) (d' : fields) (rows : list (string * fields))
    : list (string * fields) :=
  match rows with
  | [] => []
  | row :: rest =>
      if row_matches q row then (fst row, d') :: rest
      else row :: rows_replace_first q d' rest
  end.

Definition rows_find (q : query) (rows : list (string * fields)) : option fields :=
  snd <$> find (row_matches q) rows.

#[global] Instance broken_store : Collection (list (string * fields)) := {
  c_insert key d rows :=
    if existsb (fun row => bool_decide (fst row = key)) rows
    then (DuplicateKeyError, rows)
    else (Inserted, rows ++ [(key, d)]);
  c_update q u rows :=
    (Z.of_nat (length (filter (fun row => row_matches q row = true) rows)), rows_update q u rows);
  c_find_and_modify q d' rows := (rows_find q rows, rows_replace_first q d' rows);
  c_find_one q rows := rows_find q rows
}.

(** The world: the collection and the wall clock.  [clock n] is what the
    [n]-th call of [datetime.utcnow()] answers. *)
Record world (C : Type) := World {
  docs : C;
  clock : nat -> datetime;
  reads : nat
}.

Arguments World {C} docs clock reads.
Arguments docs {C} w.
Arguments clock {C} w.
Arguments reads {C} w.

Definition set_docs {C : Type} (w : world C) (c : C) : world C :=
  World c (clock w) (reads w).

(** One operation in the world.  The events keep what the method passed;
    the collection receives it as BSON. *)
Definition exec {C : Type} `{Collection C} {X : Type} (o : op X) (w : world C) : X * world C :=
  match o in op X return X * world C with
  | utcnow => (clock w (reads w), World (docs w) (clock w) (S (reads w)))
  | sleep _ => (tt, w)
  | coll_insert key d =>
      let '(r, c) := c_insert key (bson_fields d) (docs w) in (r, set_docs w c)
  | coll_update q u =>
      let '(n, c) := c_update (bson_query q) (bson_update u) (docs w) in (n, set_docs w c)
  | coll_find_and_modify q d =>
      let '(r, c) := c_find_and_modify (bson_query q) (bson_fields d) (docs w) in
      (r, set_docs w c)
  | coll_find_one q => (c_find_one (bson_query q) (docs w), w)
  end.

(** ** Running a program *)

Inductive outcome (A : Type) : Type :=
| Returned (a : A)
| Raised (e : exn)
| Running.

Arguments Returned {A} a.
Arguments Raised {A} e.
Arguments Running {A}.

(** One call, alone in the world: its outcome, the world it leaves and the
    operations it performed, in order. *)
Fixpoint run {C : Type} `{Collection C} {A : Type} (p : prog A) (w : world C)
    : outcome A * world C * list event :=
  match p with
  | Ret a => (Returned a, w, [])
  | Raise e => (Raised e, w, [])
  | Spin => (Running, w, [])
  | Vis o k =>
      let '(x, w1) := exec o w in
      let '(r, w2, tr) := run (k x) w1 in
      (r, w2, event_of o x :: tr)
  end.

Definition result {C : Type} `{Collection C} {A : Type} (p : prog A) (w : world C) : outcome A :=
  fst (fst (run p w)).

Definition final {C : Type} `{Collection C} {A : Type} (p : prog A) (w : world C) : world C :=
  snd (fst (run p w)).

Definition trace {C : Type} `{Collection C} {A : Type} (p : prog A) (w : world C) : list event :=
  snd (run p w).

(** Several calls at once: the schedule names, step by step, the thread
    that performs its next operation.  Each operation is atomic. *)
Fixpoint interleave {C : Type} `{Collection C} {A : Type} (sched : list nat)
    (threads : list (prog A)) (w : world C) : list (prog A) * world C * list (nat * event) :=
  match sched with
  | [] => (threads, w, [])
  | i :: sched' =>
      match threads !! i with
      | Some (Vis o k) =>
          let '(x, w1) := exec o w in
          let '(ts, w2, tr) := interleave sched' (<[i := k x]> threads) w1 in
          (ts, w2, (i, event_of o x) :: tr)
      | _ => interleave sched' threads w
      end
  end.

(** The threads that have returned [True]. *)
Definition returned_true (p : prog bool) : bool :=
  match p with
  | Ret true => true
  | _ => false
  end.

Definition successes (threads : list (prog bool)) : nat :=
  length (filter (fun p => returned_true p = true) threads).

(** The program a finished call has become. *)
Definition finished {A : Type} (r : outcome A) : prog A :=
  match r with
  | Returned a => Ret a
  | Raised e => Raise e
  | Running => Spin
  end.

(** A lock document is held at [now] when it is locked and not expired. *)
Definition held_at (now : datetime) (d : fields) : Prop :=
  d_locked d = true /\
  match d_expire d with
  | None => True
  | Some e => now < e
  end.

(** ** Properties of programs and scenarios *)

(** A program none of whose operations satisfies [P], whatever the replies. *)
Fixpoint never {A : Type} (P : forall X : Type, op X -> bool) (p : prog A) : Prop :=
  match p with
  | Vis o k => P _ o = false /\ forall x, never P (k x)
  | _ => True
  end.

Definition op_is_sleep (X : Type) (o : op X) : bool :=
  match o with
  | sleep _ => true
  | _ => false
  end.

Definition is_clock_read (e : event) : bool :=
  match e with EvNow _ => true | _ => false end.

(** The documents a call writes in full: by [insert] and by a replacing
    [update]. *)
Definition written (e : event) : option fields :=
  match e with
  | EvInsert _ d _ => Some d
  | EvUpdate _ (Replace d) _ => Some d
  | _ => None
  end.

Definition second : timedelta := 1000000.

(** A clock that advances by [step] between two readings. *)
Definition ticking (step : timedelta) : nat -> datetime :=
  fun n => step * Z.of_nat n.

(** No lock was ever taken. *)
Definition empty_world : world (gmap string fields) :=
  World ∅ (ticking 1000) 0.

(** Owner x holds key a, with no expiry. *)
Definition held_by_x : world (gmap string fields) :=
  World {[ "a" := Fields true (Some "x") (Some 0) None ]} (ticking DEFAULT_SLEEP_STEP) 0.

(** Key a was released. *)
Definition released : world (gmap string fields) :=
  World {[ "a" := Fields false None None None ]} (ticking 1000) 0.

(** Owner x holds key a since time 0 with a lease that ends at 10 s; the
    clock reads 3 s. *)
Definition leased_to_x : world (gmap string fields) :=
  World {[ "a" := Fields true (Some "x") (Some 0) (Some (10 * second)) ]}
        (fun _ => 3 * second) 0.

(** The clock of a session that locks at time 0 and renews at 3 s and at
    6 s. *)
Definition renewal_clock (n : nat) : datetime :=
  match n with
  | 0%nat | 1%nat => 0
  | 2%nat => 3 * second
  | _ => 6 * second
  end.

Definition renewal_world : world (gmap string fields) :=
  World ∅ renewal_clock 0.

(** Two free rows under key a in a store without the identity invariant. *)
Definition broken_world : world (list (string * fields)) :=
  World [("a", Fields false None None None); ("a", Fields false None None None)]
        (ticking 1000) 0.

(** ** What the methods read and write *)

(** A document the conditional update of [_try_get_lock] matches at [now]:
    not locked, or with an expiry before [now]. *)
Definition acquirable_at (now : datetime) (d : fields) : Prop :=
  d_locked d = false \/ exists e, d_expire d = Some e /\ e < now.

(** The number of clock readings [lock] makes before the one it stores as
    [created]: one when an expiry is asked for, none otherwise. *)
Definition reads_for_expire (expire : option Z) : nat :=
  if truthy expire then 1%nat else 0%nat.

(** The [expire] field a call of [lock] writes when it starts in [w]. *)
Definition expire_in {C : Type} (w : world C) (expire : option Z) : option datetime :=
  if truthy expire then Some (clock w (reads w) + default 0 expire) else None.

(** The clock reading [lock] starts from and the expiry it computes from
    it in [w] are datetimes Python can hold; otherwise the addition raises
    [OverflowError]. *)
Definition expiry_representable {C : Type} (w : world C) (expire : option Z) : Prop :=
  match expire_in w expire with
  | Some t => representable (clock w (reads w)) /\ representable t
  | None => True
  end.

(** An operation that writes under another [_id] than [key]. *)
Definition op_writes_other (key : string) (X : Type) (o : op X) : bool :=
  match o with
  | coll_insert k _ => negb (bool_decide (k = key))
  | coll_update q _ => negb (bool_decide (query_id q = key))
  | coll_find_and_modify q _ => negb (bool_decide (query_id q = key))
  | _ => false
  end.

(** The shape of the documents the class writes: a locked document names
    its owner and its time of creation, an unlocked one is all null. *)
Definition well_formed (d : fields) : Prop :=
  if d_locked d
  then is_Some (d_owner d) /\ is_Some (d_created d)
  else d = Fields false None None None.

Definition well_formed_docs (m : gmap string fields) : Prop :=
  map_Forall (fun _ d => well_formed d) m.

(** Threads that run [_try_get_lock]: those that have returned [True], and
    the points such a thread can be at when it asks for no expiry. *)
Definition returned_True (p : prog pyval) : bool :=
  match p with
  | Ret (PyBool true) => true
  | _ => false
  end.

Definition winners (threads : list (prog pyval)) : nat :=
  length (filter (fun p => returned_True p = true) threads).

Inductive try_point (key : string) : prog pyval -> Prop :=
| try_start (owner : string) :
    try_point key (_try_get_lock key owner None)
| try_update (owner : string) (dtnow : datetime) :
    try_point key
      (n <- call (coll_update (FreeOrExpired key dtnow)
                    (Replace (Fields true (Some owner) (Some dtnow) None))) ;;
       if 1 <? n then Raise MongoLockException else Ret (PyBool (n =? 1)))
| try_done (b : bool) :
    try_point key (Ret (PyBool b)).

(** Owner x held key a until 1 s; the clock now reads 2 s and more. *)
Definition lapsed_lease_of_x : world (gmap string fields) :=
  World {[ "a" := Fields true (Some "x") (Some 0) (Some second) ]} (ticking second) 2.

(** Owner x holds key a since time 0 with a lease that ends at 10 s; the
    clock reads 1.234567 s. *)
Definition leased_at_odd_time : world (gmap string fields) :=
  World {[ "a" := Fields true (Some "x") (Some 0) (Some (10 * second)) ]}
        (fun _ => 1234567) 0.

(** No lock was ever taken and the clock reads 1.234567 s, then 1.234599 s,
    then 4.000001 s. *)
Definition odd_clock (n : nat) : datetime :=
  match n with
  | 0%nat => 1234567
  | 1%nat => 1234599
  | _ => 4000001
  end.

Definition empty_at_odd_time : world (gmap string fields) :=
  World ∅ odd_clock 0.

(** Owner x holds key a with a lease that ends at 2.000 ms; the clock reads
    2.999 ms. *)
Definition same_millisecond : world (gmap string fields) :=
  World {[ "a" := Fields true (Some "x") (Some 0) (Some 2000) ]} (fun _ => 2999) 0.

(** At most one thread has won, and when one has, the document of the key
    is locked and has no expiry. *)
Definition exclusive (key : string) (threads : list (prog pyval))
    (m : gmap string fields) : Prop :=
  (winners threads <= 1)%nat /\
  ((winners threads = 1)%nat ->
   exists d, m !! key = Some d /\ d_locked d = true /\ d_expire d = None).

(** * Theorems *)

(** Case analysis on the reply of the collection to the next operation. *)
Ltac collection_step :=
  match goal with
  | |- context [c_insert ?k ?d ?c] => destruct (c_insert k d c) as [[|] ?] eqn:?
  | |- context [c_update ?q ?u ?c] => destruct (c_update q u c) as [? ?] eqn:?
  end; simpl.

Ltac no_such_event :=
  let Hin := fresh "Hin" in
  intros Hin; repeat (destruct Hin as [Hin | Hin]; try discriminate Hin); contradiction.

Ltac written_nulls :=
  repeat constructor; simpl; intros ? [= <-]; reflexivity.

(** ** Milliseconds *)

Lemma bson_datetime_le (t : datetime) : bson_datetime t <= t.
Proof. unfold bson_datetime. apply Z.mul_div_le. lia. Qed.

Lemma bson_datetime_gt (t : datetime) : t - 1000 < bson_datetime t.
Proof.
  unfold bson_datetime. pose proof (Z.mul_succ_div_gt t 1000 ltac:(lia)). lia.
Qed.

Lemma query_id_bson (q : query) : query_id (bson_query q) = query_id q.
Proof. destruct q; reflexivity. Qed.

(** ** Running programs *)

Section Running.
Context {C : Type} `{Collection C}.

Lemma run_bind {A B : Type} (p : prog A) (f : A -> prog B) (w : world C) :
  run (bind p f) w =
  match run p w with
  | (Returned a, w1, tr1) => let '(r, w2, tr2) := run (f a) w1 in (r, w2, tr1 ++ tr2)
  | (Raised e, w1, tr1) => (Raised e, w1, tr1)
  | (Running, w1, tr1) => (Running, w1, tr1)
  end.
Proof.
  revert w. induction p as [a | e | | X o k IH]; intros w; simpl.
  - destruct (run (f a) w) as [[r w2] tr2]. reflexivity.
  - reflexivity.
  - reflexivity.
  - destruct (exec o w) as [x w1]. rewrite IH.
    destruct (run (k x) w1) as [[[a | e |] w2] tr]; try reflexivity.
    destruct (run (f a) w2) as [[r w3] tr3]. reflexivity.
Qed.

Lemma run_catch {A : Type} (p : prog A) (w : world C) :
  run (catch p) w =
  match run p w with
  | (Returned a, w1, tr) => (Returned (inr a), w1, tr)
  | (Raised e, w1, tr) => (Returned (inl e), w1, tr)
  | (Running, w1, tr) => (Running, w1, tr)
  end.
Proof.
  revert w. induction p as [a | e | | X o k IH]; intros w; simpl; try reflexivity.
  destruct (exec o w) as [x w1]. rewrite IH.
  destruct (run (k x) w1) as [[[a | e |] w2] tr]; reflexivity.
Qed.

(** An operation a program never performs is absent from every trace. *)
Lemma never_trace {A : Type} (P : forall X : Type, op X -> bool) (Q : event -> bool)
    (p : prog A) (w : world C) :
  (forall X (o : op X) (x : X), Q (event_of o x) = P X o) ->
  never P p ->
  existsb Q (trace p w) = false.
Proof.
  intros HPQ. unfold trace. revert w.
  induction p as [a | e | | X o k IH]; intros w Hn; simpl; try reflexivity.
  destruct Hn as [Ho Hk]. destruct (exec o w) as [x w1].
  specialize (IH x w1 (Hk x)). destruct (run (k x) w1) as [[r w2] tr].
  simpl in *. rewrite HPQ, Ho, IH. reflexivity.
Qed.

End Running.

Lemma never_bind {A B : Type} (P : forall X : Type, op X -> bool) (p : prog A) (f : A -> prog B) :
  never P p -> (forall a, never P (f a)) -> never P (bind p f).
Proof.
  intros Hp Hf. induction p as [a | e | | X o k IH]; simpl in *; auto.
  destruct Hp as [Ho Hk]. split; [exact Ho |]. intros x. apply IH, Hk.
Qed.

Lemma is_sleep_event_of (X : Type) (o : op X) (x : X) :
  is_sleep (event_of o x) = op_is_sleep X o.
Proof. destruct o; reflexivity. Qed.

(** ** The acquisition loop *)

Lemma try_get_lock_never_sleeps (key owner : string) (expire : option datetime) :
  never op_is_sleep (_try_get_lock key owner expire).
Proof.
  unfold _try_get_lock. simpl. split; [reflexivity |]. intros dtnow.
  split; [reflexivity |]. intros n. destruct (1 <? n); exact I.
Qed.

Lemma lock_loop_never_sleeps (fuel : nat) (key owner : string) (timeout : option Z)
    (expire : option datetime) (start_time : datetime) :
  never op_is_sleep (lock_loop fuel key owner timeout expire start_time).
Proof.
  induction fuel as [| fuel IH]; simpl; [exact I |].
  split; [reflexivity |]. intros dtnow. split; [reflexivity |]. intros n.
  destruct (1 <? n); simpl; exact I.
Qed.

(** No call of [lock] sleeps, in whatever store and at whatever time: the
    class performs no [time.sleep]. *)
Lemma lock_never_sleeps {C : Type} `{Collection C} (w : world C) (fuel : nat)
    (key owner : string) (timeout expire : option Z) :
  existsb is_sleep (trace (lock fuel key owner timeout expire) w) = false.
Proof.
  apply (never_trace op_is_sleep); [apply is_sleep_event_of |].
  unfold lock. apply never_bind.
  - destruct (truthy expire); simpl; [| exact I].
    split; [reflexivity |]. intros now. destruct expire; exact I.
  - intros e. simpl. split; [reflexivity |]. intros created.
    split; [reflexivity |]. intros [|]; [exact I |].
    destruct (negb (truthy timeout)); simpl; [exact I |].
    split; [reflexivity |]. intros start_time. apply lock_loop_never_sleeps.
Qed.

(** On a held document the conditional update matches nothing: the store is
    left as it was and [_try_get_lock] returns [False]. *)
Lemma try_get_lock_on_held (w : world (gmap string fields)) (key owner : string)
    (expire : option datetime) (d : fields) :
  docs w !! key = Some d ->
  held_at (clock w (reads w)) d ->
  let dtnow := clock w (reads w) in
  run (_try_get_lock key owner expire) w =
    (Returned (PyBool false),
     World (docs w) (clock w) (S (reads w)),
     [EvNow dtnow;
      EvUpdate (FreeOrExpired key dtnow)
        (Replace (Fields true (Some owner) (Some dtnow) expire)) 0]).
Proof.
  intros Hd [Hlocked Hexp]. destruct w as [m clk rd]. simpl in *.
  unfold mongo_find. simpl. rewrite Hd. simpl. rewrite Hlocked. simpl.
  destruct (d_expire d) as [e |]; [| reflexivity].
  destruct (Z.ltb_spec e (bson_datetime (clk rd))); [| reflexivity].
  pose proof (bson_datetime_le (clk rd)). lia.
Qed.

(** In MongoDB [_try_get_lock] never raises and never returns [None]. *)
Lemma try_get_lock_returns_bool (w : world (gmap string fields)) (key owner : string)
    (expire : option datetime) :
  exists b, result (_try_get_lock key owner expire) w = Returned (PyBool b).
Proof.
  destruct w as [m clk rd]. unfold result. simpl.
  destruct (mongo_find _ m); simpl; eauto.
Qed.

(** Once the insert was refused and a timeout was given, [lock] returns
    [True] whatever the store holds. *)
Lemma lock_contended_returns_True (w : world (gmap string fields)) (fuel : nat)
    (key owner : string) (timeout expire : option Z) (d : fields) :
  docs w !! key = Some d ->
  truthy timeout = true ->
  result (lock (S fuel) key owner timeout expire) w = Returned true.
Proof.
  intros Hd Ht. destruct w as [m clk rd]. simpl in Hd.
  unfold result, lock. rewrite Ht.
  destruct expire as [n |]; simpl; [destruct (n =? 0); simpl |];
    rewrite Hd; simpl; destruct (mongo_find _ m); reflexivity.
Qed.

(** C1. Owner x holds key a with no expiry and owner y calls
    [lock('a', 'y', timeout=0.3)]: the only conditional update matches no
    record and leaves the store as it was, and the call returns [True], not
    [False], before the deadline was looked at. *)
Theorem lock_on_held_key_returns_True (fuel : nat) :
  let attempt := lock (S fuel) "a" "y" (Some (3 * DEFAULT_SLEEP_STEP)) None in
  (forall now, held_at now (Fields true (Some "x") (Some 0) None)) /\
  result attempt held_by_x = Returned true /\
  docs (final attempt held_by_x) = docs held_by_x /\
  filter (fun e => is_update e = true) (trace attempt held_by_x) =
    [EvUpdate (FreeOrExpired "a" 200000)
       (Replace (Fields true (Some "y") (Some 200000) None)) 0].
Proof. repeat split. Qed.

(** C6. In the same call the trace is: the clock, the refused insert, the
    clock twice, one conditional update that matches nothing; then the call
    returns.  No sleep, no second look at the clock, no second attempt. *)
Theorem lock_zero_match_no_sleep_no_retry (fuel : nat) :
  let attempt := lock (S fuel) "a" "y" (Some (3 * DEFAULT_SLEEP_STEP)) None in
  trace attempt held_by_x =
    [EvNow 0;
     EvInsert "a" (Fields true (Some "y") (Some 0) None) DuplicateKeyError;
     EvNow 100000;
     EvNow 200000;
     EvUpdate (FreeOrExpired "a" 200000)
       (Replace (Fields true (Some "y") (Some 200000) None)) 0] /\
  existsb is_sleep (trace attempt held_by_x) = false /\
  result attempt held_by_x = Returned true.
Proof. repeat split. Qed.

(** C7. When a document for the key exists and no timeout is given, [lock]
    returns [False] right after the refused insert: the trace is clock
    readings followed by that insert, with no conditional update, and the
    store is left as it was. *)
Theorem lock_without_timeout_fails_at_once (w : world (gmap string fields)) (fuel : nat)
    (key owner : string) (expire : option Z) (d : fields) :
  docs w !! key = Some d ->
  let attempt := lock fuel key owner None expire in
  result attempt w = Returned false /\
  docs (final attempt w) = docs w /\
  existsb is_update (trace attempt w) = false /\
  exists readings d',
    trace attempt w = readings ++ [EvInsert key d' DuplicateKeyError] /\
    forallb is_clock_read readings = true.
Proof.
  intros Hd. destruct w as [m clk rd]. simpl in Hd.
  unfold result, final, trace, lock.
  destruct expire as [n |]; simpl; [destruct (n =? 0); simpl |];
    rewrite Hd; simpl; repeat split;
    try (eexists [_], _; split; reflexivity);
    eexists [_; _], _; split; reflexivity.
Qed.

Lemma lock_without_timeout_fails_at_once_witness :
  docs held_by_x !! "a" = Some (Fields true (Some "x") (Some 0) None) /\
  result (lock 3 "a" "y" None (Some second)) held_by_x = Returned false.
Proof.
  split; [reflexivity |].
  apply (lock_without_timeout_fails_at_once held_by_x 3 "a" "y" (Some second)
           (Fields true (Some "x") (Some 0) None)).
  reflexivity.
Defined.

(** ** Release *)

(** C5. [release(key, owner)] on MongoDB: when the document of the key has
    this owner and is locked, it is reset to the free state and the call
    returns; when there is no document for the key, or its owner is another
    (as in the free state, where the owner is null), or it is not locked,
    the call raises [MongoLockException]. *)
Theorem release_resets_held_lock_or_raises (w : world (gmap string fields))
    (key owner : string) :
  (forall d, docs w !! key = Some d -> d_owner d = Some owner -> d_locked d = true ->
     result (release key owner) w = Returned tt /\
     docs (final (release key owner) w) = <[key := Fields false None None None]> (docs w)) /\
  (docs w !! key = None \/
   (exists d, docs w !! key = Some d /\ (d_owner d <> Some owner \/ d_locked d = false)) ->
     result (release key owner) w = Raised MongoLockException).
Proof.
  destruct w as [m clk rd]. unfold result, final. simpl. unfold mongo_find. simpl. split.
  - intros d Hd Ho Hl. rewrite Hd. rewrite bool_decide_eq_true_2 by exact Ho.
    simpl. rewrite Hl. split; reflexivity.
  - intros [Hnone | [d [Hd Hbad]]].
    + rewrite Hnone. reflexivity.
    + rewrite Hd. destruct (bool_decide (d_owner d = Some owner)) eqn:Ho; [| reflexivity].
      apply bool_decide_eq_true_1 in Ho. destruct Hbad as [Hne | Hfree]; [contradiction |].
      simpl. rewrite Hfree. reflexivity.
Qed.

Lemma release_resets_held_lock_or_raises_witness :
  (result (release "a" "x") held_by_x = Returned tt /\
   docs (final (release "a" "x") held_by_x) = docs released) /\
  result (release "a" "x") released = Raised MongoLockException /\
  result (release "a" "x") empty_world = Raised MongoLockException.
Proof.
  split; [| split].
  - apply (proj1 (release_resets_held_lock_or_raises held_by_x "a" "x")
             (Fields true (Some "x") (Some 0) None)); reflexivity.
  - apply (proj2 (release_resets_held_lock_or_raises released "a" "x")).
    right. exists (Fields false None None None).
    split; [reflexivity | left; discriminate].
  - apply (proj2 (release_resets_held_lock_or_raises empty_world "a" "x")).
    left. reflexivity.
Defined.

(** ** Renewal *)

(** What one renewal does to a document that has an expiry. *)
Lemma touch_run (w : world (gmap string fields)) (key owner : string)
    (d : fields) (c e : datetime) :
  docs w !! key = Some d ->
  d_owner d = Some owner ->
  d_created d = Some c ->
  d_expire d = Some e ->
  let now := clock w (reads w) in
  let e' := now + (e - c) in
  run (touch key owner) w =
    (Returned tt,
     World (<[key := Fields (d_locked d) (d_owner d) (d_created d)
                       (Some (bson_datetime e'))]> (docs w))
           (clock w) (S (reads w)),
     [EvFindOne (ByIdOwner key owner) (Some d); EvNow now;
      EvUpdate (ByIdOwner key owner) (SetExpire e') 1]).
Proof.
  intros Hd Ho Hc He. destruct w as [m clk rd]. simpl in *.
  unfold mongo_find. simpl. rewrite Hd. rewrite bool_decide_eq_true_2 by exact Ho.
  rewrite He. simpl. rewrite Hc. simpl. unfold mongo_find. simpl. rewrite Hd.
  rewrite bool_decide_eq_true_2 by exact Ho. simpl. rewrite Hc. reflexivity.
Qed.

(** C10. A call of [touch] that returns, on a document that has an expiry,
    leaves the collection as it was but for the [expire] field of the
    document of the key: [locked], [owner] and [created] are kept, and no
    other key is touched. *)
Theorem touch_changes_expire_only (w : world (gmap string fields)) (key owner : string)
    (d : fields) (e : datetime) :
  docs w !! key = Some d ->
  d_expire d = Some e ->
  result (touch key owner) w = Returned tt ->
  exists e',
    docs (final (touch key owner) w) =
      <[key := Fields (d_locked d) (d_owner d) (d_created d) (Some e')]> (docs w).
Proof.
  intros Hd He Hres.
  destruct (decide (d_owner d = Some owner)) as [Ho | Ho].
  2: { exfalso. revert Hres. destruct w as [m clk rd]. unfold result. simpl in *.
       unfold mongo_find. simpl. rewrite Hd.
       rewrite bool_decide_eq_false_2 by exact Ho. discriminate. }
  destruct (d_created d) as [c |] eqn:Hc.
  2: { exfalso. revert Hres. destruct w as [m clk rd]. unfold result. simpl in *.
       unfold mongo_find. simpl. rewrite Hd.
       rewrite bool_decide_eq_true_2 by exact Ho. rewrite He. simpl.
       rewrite Hc. discriminate. }
  exists (bson_datetime (clock w (reads w) + (e - c))). unfold final.
  rewrite (touch_run w key owner d c e Hd Ho Hc He). simpl. rewrite Hc. reflexivity.
Qed.

Lemma touch_changes_expire_only_witness :
  exists e',
    docs (final (touch "a" "x") leased_to_x) =
      <[ "a" := Fields true (Some "x") (Some 0) (Some e') ]> (docs leased_to_x).
Proof.
  apply (touch_changes_expire_only leased_to_x "a" "x"
           (Fields true (Some "x") (Some 0) (Some (10 * second))) (10 * second));
    reflexivity.
Defined.

(** Two renewals in a row, at readings [t1] and [t2], of a lease that ends
    at [e] on a lock created at [c]: the second one starts from the expiry
    the first one wrote, while [created] is still the time of acquisition.
    The expiry it writes is, but for the microseconds BSON drops, the second
    reading plus the first lease plus the age [t1 - c] of the lock. *)
Theorem touch_twice_expire (w : world (gmap string fields)) (key owner : string)
    (d : fields) (c e : datetime) :
  docs w !! key = Some d ->
  d_owner d = Some owner ->
  d_created d = Some c ->
  d_expire d = Some e ->
  let t1 := clock w (reads w) in
  let t2 := clock w (S (reads w)) in
  let first := bson_datetime (t1 + (e - c)) in
  let second := bson_datetime (t2 + (first - c)) in
  representable (t1 + (e - c)) ->
  representable (t2 + (first - c)) ->
  d_expire <$> docs (final (_ <- touch key owner ;; touch key owner) w) !! key =
    Some (Some second) /\
  t2 + (e - c) + (t1 - c) - 2000 < second <= t2 + (e - c) + (t1 - c).
Proof.
  intros Hd Ho Hc He t1 t2 first second _ _. split.
  - unfold final. rewrite run_bind.
    rewrite (touch_run w key owner d c e Hd Ho Hc He). cbv beta iota.
    set (d1 := Fields (d_locked d) (d_owner d) (d_created d)
                 (Some (bson_datetime (clock w (reads w) + (e - c))))).
    set (w1 := World (<[key := d1]> (docs w)) (clock w) (S (reads w))).
    pose proof (touch_run w1 key owner d1 c (bson_datetime (clock w (reads w) + (e - c)))
                  (lookup_insert_eq _ _ _) Ho Hc eq_refl) as H2.
    cbv zeta in H2. rewrite H2. subst w1. cbn [fst snd docs clock reads].
    rewrite lookup_insert_eq. reflexivity.
  - subst second first t1 t2.
    pose proof (bson_datetime_le (clock w (reads w) + (e - c))).
    pose proof (bson_datetime_gt (clock w (reads w) + (e - c))).
    pose proof (bson_datetime_le
                  (clock w (S (reads w)) + (bson_datetime (clock w (reads w) + (e - c)) - c))).
    pose proof (bson_datetime_gt
                  (clock w (S (reads w)) + (bson_datetime (clock w (reads w) + (e - c)) - c))).
    lia.
Qed.

(** C4. A lock taken at time 0 with a lease of 10 s and renewed at 3 s and
    at 6 s: the first renewal sets the expiry to 13 s, the second one to
    19 s, which is 13 s after the call and not 10 s. *)
Theorem second_renewal_lengthens_lease :
  let acquire := lock 1 "a" "x" None (Some (10 * second)) in
  let once := _ <- acquire ;; touch "a" "x" in
  let twice := _ <- once ;; touch "a" "x" in
  docs (final acquire renewal_world) !! "a" =
    Some (Fields true (Some "x") (Some 0) (Some (10 * second))) /\
  docs (final once renewal_world) !! "a" =
    Some (Fields true (Some "x") (Some 0) (Some (3 * second + 10 * second))) /\
  result twice renewal_world = Returned tt /\
  last (trace twice renewal_world) =
    Some (EvUpdate (ByIdOwner "a" "x") (SetExpire (19 * second)) 1) /\
  filter (fun e => is_clock_read e = true) (trace twice renewal_world) =
    [EvNow 0; EvNow 0; EvNow (3 * second); EvNow (6 * second)] /\
  docs (final twice renewal_world) !! "a" =
    Some (Fields true (Some "x") (Some 0) (Some (6 * second + 13 * second))).
Proof. repeat split. Qed.

(** ** Acquisition: expiry and consistency *)

Lemma matches_acquirable (key : string) (t : datetime) (d : fields) :
  acquirable_at t d -> matches (FreeOrExpired key t) d = true.
Proof.
  intros [Hfree | [e [He Hlt]]]; simpl.
  - rewrite Hfree. reflexivity.
  - rewrite He. apply orb_true_iff. right. apply Z.ltb_lt. exact Hlt.
Qed.

(** C9. [lock] with [expire=0].  In any store, every document the call
    writes, by the insert or by a conditional update, has [expire] null;
    on MongoDB the call leaves the collection as it was or with the
    document of the key locked, owned by the caller and with [expire] null.
    And the record is written: on a key without document the call returns
    [True] and the document it inserted is locked, owned by the caller and
    has [expire] null; on a document that is unlocked or expired at the
    reading of the conditional update, the call with a timeout returns
    [True] and the document it wrote is locked, owned by the caller and has
    [expire] null. *)
Theorem lock_expire_zero_writes_null (fuel : nat) (key owner : string) (timeout : option Z) :
  let attempt := lock fuel key owner timeout (Some 0) in
  let taking := lock (S fuel) key owner timeout (Some 0) in
  (forall (C : Type) (HC : Collection C) (w : world C),
     Forall (fun e => forall d, written e = Some d -> d_expire d = None) (trace attempt w)) /\
  (forall w : world (gmap string fields),
     docs (final attempt w) = docs w \/
     exists t, docs (final attempt w) = <[key := Fields true (Some owner) (Some t) None]> (docs w)) /\
  (forall w : world (gmap string fields),
     docs w !! key = None ->
     result attempt w = Returned true /\
     docs (final attempt w) !! key =
       Some (Fields true (Some owner) (Some (bson_datetime (clock w (reads w)))) None)) /\
  (forall (w : world (gmap string fields)) (d : fields),
     docs w !! key = Some d ->
     truthy timeout = true ->
     acquirable_at (bson_datetime (clock w (S (S (reads w))))) d ->
     result taking w = Returned true /\
     docs (final taking w) !! key =
       Some (Fields true (Some owner)
               (Some (bson_datetime (clock w (S (S (reads w)))))) None)).
Proof.
  split; [| split; [| split]].
  - intros C HC [c clk rd]. unfold trace, lock. simpl.
    collection_step; [written_nulls |].
    destruct (truthy timeout); simpl; [| written_nulls].
    destruct fuel as [| fuel]; simpl; [written_nulls |].
    collection_step. destruct (1 <? _); simpl; written_nulls.
  - intros [m clk rd]. unfold final, lock. simpl.
    destruct (m !! key) as [d |] eqn:Hd; simpl; [| right; eexists; reflexivity].
    destruct (truthy timeout); simpl; [| left; reflexivity].
    destruct fuel as [| fuel]; simpl; [left; reflexivity |].
    unfold mongo_find. simpl. rewrite Hd.
    match goal with |- context [if ?b then Some d else None] => destruct b end; simpl;
      [right; eexists; reflexivity | left; reflexivity].
  - intros [m clk rd] Hd. simpl in Hd. unfold result, final, lock. simpl.
    rewrite Hd. simpl. split; [reflexivity | apply lookup_insert_eq].
  - intros [m clk rd] d Hd Ht Hacq. simpl in Hd, Hacq. unfold result, final, lock.
    rewrite Ht. simpl. rewrite Hd. simpl. unfold mongo_find. simpl query_id. rewrite Hd.
    rewrite (matches_acquirable _ _ _ Hacq). simpl.
    split; [reflexivity | apply lookup_insert_eq].
Qed.

Lemma lock_expire_zero_writes_null_witness :
  (result (lock 1 "a" "x" None (Some 0)) empty_world = Returned true /\
   docs (final (lock 1 "a" "x" None (Some 0)) empty_world) !! "a" =
     Some (Fields true (Some "x") (Some 0) None)) /\
  (result (lock 1 "a" "y" (Some second) (Some 0)) lapsed_lease_of_x = Returned true /\
   docs (final (lock 1 "a" "y" (Some second) (Some 0)) lapsed_lease_of_x) !! "a" =
     Some (Fields true (Some "y") (Some (4 * second)) None)).
Proof.
  split.
  - apply (proj1 (proj2 (proj2 (lock_expire_zero_writes_null 1 "a" "x" None))) empty_world).
    reflexivity.
  - apply (proj2 (proj2 (proj2 (lock_expire_zero_writes_null 0 "a" "y" (Some second))))
             lapsed_lease_of_x (Fields true (Some "x") (Some 0) (Some second)));
      [reflexivity | reflexivity |].
    right. exists second. split; reflexivity.
Defined.

(** C8. In any store and for any call of [lock]: when a conditional update
    of the call is answered with more than one record affected, the call
    raises [MongoLockException] and that update is its last operation. *)
Theorem lock_raises_on_several_records {C : Type} `{Collection C} (w : world C) (fuel : nat)
    (key owner : string) (timeout expire : option Z) (q : query) (u : update_doc) (n : Z) :
  In (EvUpdate q u n) (trace (lock fuel key owner timeout expire) w) ->
  1 < n ->
  result (lock fuel key owner timeout expire) w = Raised MongoLockException /\
  exists before, trace (lock fuel key owner timeout expire) w = before ++ [EvUpdate q u n].
Proof.
  destruct w as [c clk rd]. unfold trace, result, lock. intros Hin Hn. revert Hin.
  destruct expire as [dt |]; simpl; [destruct (dt =? 0); simpl |];
    (collection_step; [no_such_event |]);
    (destruct (truthy timeout); simpl; [| no_such_event]);
    (destruct fuel as [| fuel]; simpl; [no_such_event |]);
    collection_step;
    match goal with |- context [1 <? ?k] => destruct (Z.ltb_spec 1 k) end; simpl;
    intros Hin; repeat (destruct Hin as [Hin | Hin]; try discriminate Hin);
    try contradiction; injection Hin as <- <- <-; try lia;
    (split; [reflexivity |]).
  - eexists [_; _; _; _]. reflexivity.
  - eexists [_; _; _; _; _]. reflexivity.
  - eexists [_; _; _; _]. reflexivity.
Qed.

Lemma lock_raises_on_several_records_witness :
  result (lock 1 "a" "y" (Some (3 * DEFAULT_SLEEP_STEP)) None) broken_world
    = Raised MongoLockException.
Proof.
  apply (lock_raises_on_several_records broken_world 1 "a" "y"
           (Some (3 * DEFAULT_SLEEP_STEP)) None
           (FreeOrExpired "a" 2000)
           (Replace (Fields true (Some "y") (Some 2000) None)) 2).
  - simpl. right. right. right. right. left. reflexivity.
  - lia.
Defined.

(** ** Two owners *)

(** C2. Owner x locks the fresh key a; then owner y calls
    [lock('a', 'y', timeout=1)].  Both calls return [True], although no
    release was performed and the document, still owned by x, has no
    expiry. *)
Theorem two_owners_both_return_True (fuel : nat) :
  let threads := [lock (S fuel) "a" "x" None None; lock (S fuel) "a" "y" (Some second) None] in
  let '(ts, w, tr) := interleave [0; 0; 1; 1; 1; 1; 1]%nat threads empty_world in
  ts = [Ret true; Ret true] /\
  successes ts = 2%nat /\
  existsb (fun e => is_release (snd e)) tr = false /\
  docs w !! "a" = Some (Fields true (Some "x") (Some 0) None).
Proof. repeat split. Qed.

(** ** The context manager *)

Section ContextManager.
Context {C : Type} `{Collection C}.

(** When the lock was acquired and the body returns, [release] is called. *)
Lemma with_stmt_body_returns (w : world C) (fuel : nat) (key owner : string)
    (timeout expire : option Z) (body : prog unit) (w1 w2 : world C) (tr1 tr2 : list event) :
  run (lock fuel key owner timeout expire) w = (Returned true, w1, tr1) ->
  run body w1 = (Returned tt, w2, tr2) ->
  run (with_stmt (__call__ fuel key owner timeout expire) body) w =
    let '(r, w3, tr3) := run (release key owner) w2 in (r, w3, tr1 ++ tr2 ++ tr3).
Proof.
  intros Hlock Hbody. unfold with_stmt, __call__.
  rewrite !run_bind, Hlock. cbn [negb run app]. rewrite app_nil_r.
  rewrite run_bind, run_catch, Hbody. cbn [yield_point bind].
  destruct (run (release key owner) w2) as [[r w3] tr3]. reflexivity.
Qed.

(** When the lock was acquired and the body raises, the exception goes
    through the generator at its [yield] and nothing more is performed. *)
Lemma with_stmt_body_raises (w : world C) (fuel : nat) (key owner : string)
    (timeout expire : option Z) (body : prog unit) (e : exn)
    (w1 w2 : world C) (tr1 tr2 : list event) :
  run (lock fuel key owner timeout expire) w = (Returned true, w1, tr1) ->
  run body w1 = (Raised e, w2, tr2) ->
  run (with_stmt (__call__ fuel key owner timeout expire) body) w =
    (Raised e, w2, tr1 ++ tr2).
Proof.
  intros Hlock Hbody. unfold with_stmt, __call__.
  rewrite !run_bind, Hlock. cbn [negb run app]. rewrite app_nil_r.
  rewrite run_bind, run_catch, Hbody. cbn [yield_point bind run].
  rewrite app_nil_r. reflexivity.
Qed.

End ContextManager.

(** C3. [with lock('a', 'x'): raise Exception('boom')] on a fresh key: the
    lock is acquired, the exception leaves the block, no [release] was
    called and the document stays locked by x.  With a body that returns,
    the same block ends with the call of [release]. *)
Theorem with_block_raising_skips_release (fuel : nat) :
  let cm := __call__ fuel "a" "x" None None in
  let raising := with_stmt cm (Raise (Exception "boom")) in
  let returning := with_stmt cm (Ret tt) in
  result (lock fuel "a" "x" None None) empty_world = Returned true /\
  result raising empty_world = Raised (Exception "boom") /\
  existsb is_release (trace raising empty_world) = false /\
  docs (final raising empty_world) !! "a" = Some (Fields true (Some "x") (Some 0) None) /\
  existsb is_release (trace returning empty_world) = true /\
  docs (final returning empty_world) !! "a" = Some (Fields false None None None).
Proof. repeat split. Qed.

(** ** Termination and scheduling *)

(** One iteration of fuel is enough: in any store a call of [lock] returns
    or raises, it never stays in its loop. *)
Lemma lock_terminates {C : Type} `{Collection C} (w : world C) (fuel : nat)
    (key owner : string) (timeout expire : option Z) :
  result (lock (S fuel) key owner timeout expire) w <> Running.
Proof.
  destruct w as [c clk rd]. unfold result, lock.
  destruct expire as [dt |]; simpl; [destruct (dt =? 0); simpl |];
    (collection_step; [discriminate |]);
    (destruct (truthy timeout); simpl; [| discriminate]);
    collection_step; destruct (1 <? _); simpl; discriminate.
Qed.

(** A thread scheduled alone does what [run] says. *)
Lemma interleave_alone {C : Type} `{Collection C} {A : Type} (p : prog A) (w : world C) :
  exists n,
    interleave (replicate n 0%nat) [p] w =
      ([finished (result p w)], final p w, map (pair 0%nat) (trace p w)).
Proof.
  unfold result, final, trace. revert w.
  induction p as [a | e | | X o k IH]; intros w; try (exists 0%nat; reflexivity).
  simpl. destruct (exec o w) as [x w1] eqn:Hx. destruct (IH x w1) as [n Hn].
  exists (S n). simpl. rewrite Hx. rewrite Hn.
  destruct (run (k x) w1) as [[r w2] tr]. reflexivity.
Qed.

(** * Further properties of the methods *)

(** ** [lock] on MongoDB *)

(** On a key that has no document, when the expiry asked for is a datetime
    Python can hold, [lock] inserts a locked document with the caller as
    owner, the clock as [created] and the expiry asked for, both stored to
    the millisecond, and returns [True] without any conditional update,
    whatever the timeout. *)
Theorem lock_fresh_key_inserts (w : world (gmap string fields)) (fuel : nat)
    (key owner : string) (timeout expire : option Z) :
  docs w !! key = None ->
  expiry_representable w expire ->
  let attempt := lock fuel key owner timeout expire in
  let d := Fields true (Some owner)
             (Some (clock w (reads_for_expire expire + reads w)%nat)) (expire_in w expire) in
  result attempt w = Returned true /\
  docs (final attempt w) = <[key := bson_fields d]> (docs w) /\
  existsb is_update (trace attempt w) = false /\
  last (trace attempt w) = Some (EvInsert key d Inserted).
Proof.
  intros Hd _. destruct w as [m clk rd]. simpl in Hd.
  unfold result, final, trace, lock, expire_in, reads_for_expire.
  destruct expire as [dt |]; simpl; [destruct (dt =? 0); simpl |];
    rewrite Hd; simpl; repeat split.
Qed.

Lemma lock_fresh_key_inserts_witness :
  docs (final (lock 1 "b" "y" None (Some 1234567)) held_by_x) !! "b" =
    Some (Fields true (Some "y") (Some 100000) (Some 1234000)).
Proof.
  rewrite (proj1 (proj2 (lock_fresh_key_inserts held_by_x 1 "b" "y" None (Some 1234567)
                           eq_refl ltac:(vm_compute; repeat split; discriminate)))).
  reflexivity.
Defined.

(** On MongoDB, when the expiry asked for is a datetime Python can hold, a
    call of [lock] does not raise and does not stay in its loop.  It returns
    [False] exactly when a document for the key exists and the timeout is
    [None] or [0]. *)
Theorem lock_result_on_mongo (w : world (gmap string fields)) (fuel : nat)
    (key owner : string) (timeout expire : option Z) :
  expiry_representable w expire ->
  result (lock (S fuel) key owner timeout expire) w =
    Returned (bool_decide (docs w !! key = None) || truthy timeout).
Proof.
  intros _. destruct w as [m clk rd]. unfold result, lock. simpl docs.
  destruct (m !! key) as [d |] eqn:Hd.
  - rewrite bool_decide_eq_false_2 by discriminate.
    destruct expire as [dt |]; simpl; [destruct (dt =? 0); simpl |];
      rewrite Hd; simpl; destruct (truthy timeout); simpl; try reflexivity;
      destruct (mongo_find _ m); reflexivity.
  - rewrite bool_decide_eq_true_2 by reflexivity.
    destruct expire as [dt |]; simpl; [destruct (dt =? 0); simpl |];
      rewrite Hd; reflexivity.
Qed.

Lemma lock_result_on_mongo_witness :
  result (lock 1 "a" "y" (Some 0) (Some second)) held_by_x = Returned false /\
  result (lock 1 "a" "y" (Some second) (Some second)) held_by_x = Returned true.
Proof.
  split.
  - apply (lock_result_on_mongo held_by_x 0 "a" "y" (Some 0) (Some second)).
    vm_compute. repeat split; discriminate.
  - apply (lock_result_on_mongo held_by_x 0 "a" "y" (Some second) (Some second)).
    vm_compute. repeat split; discriminate.
Defined.

(** An expiry in the millisecond of the clock reading is not yet before it
    for the store: the lease that ended at 2.000 ms is not taken over at
    2.999 ms, it is at 3.000 ms. *)
Example lock_within_the_millisecond :
  docs (final (lock 1 "a" "y" (Some second) None) same_millisecond) = docs same_millisecond /\
  d_owner <$> docs (final (lock 1 "a" "y" (Some second) None)
                      (World (docs same_millisecond) (fun _ => 3000) 0)) !! "a" =
    Some (Some "y").
Proof. split; reflexivity. Qed.

Lemma lock_acquirable_final (w : world (gmap string fields)) (fuel : nat)
    (key owner : string) (timeout expire : option Z) (d : fields) :
  docs w !! key = Some d ->
  truthy timeout = true ->
  acquirable_at (bson_datetime (clock w (S (S (reads_for_expire expire + reads w))))) d ->
  docs (final (lock (S fuel) key owner timeout expire) w) =
    <[key := bson_fields
               (Fields true (Some owner)
                  (Some (clock w (S (S (reads_for_expire expire + reads w)))))
                  (expire_in w expire))]> (docs w).
Proof.
  intros Hd Ht Hacq. destruct w as [m clk rd]. simpl in Hd.
  unfold final, lock, expire_in, reads_for_expire in *. rewrite Ht.
  revert Hacq.
  destruct expire as [dt |]; simpl; [destruct (dt =? 0); simpl |];
    intros Hacq; rewrite Hd; simpl; unfold mongo_find; simpl query_id; rewrite Hd;
    rewrite (matches_acquirable _ _ _ Hacq); reflexivity.
Qed.


(** Taking over: when the document of the key is unlocked, or its expiry is
    before the clock reading of the conditional update, both taken to the
    millisecond, [lock] with a timeout replaces it by a locked document of
    the caller, created at that reading, with the expiry computed when the
    call started, both stored to the millisecond. *)
Theorem lock_takes_over_acquirable (w : world (gmap string fields)) (fuel : nat)
    (key owner : string) (timeout expire : option Z) (d : fields) :
  docs w !! key = Some d ->
  truthy timeout = true ->
  expiry_representable w expire ->
  let dtnow := clock w (S (S (reads_for_expire expire + reads w))) in
  acquirable_at (bson_datetime dtnow) d ->
  let attempt := lock (S fuel) key owner timeout expire in
  result attempt w = Returned true /\
  docs (final attempt w) =
    <[key := bson_fields (Fields true (Some owner) (Some dtnow) (expire_in w expire))]>
      (docs w).
Proof.
  intros Hd Ht _ dtnow Hacq attempt. split.
  - apply (lock_contended_returns_True w fuel key owner timeout expire d Hd Ht).
  - apply (lock_acquirable_final w fuel key owner timeout expire d Hd Ht Hacq).
Qed.

Lemma lock_takes_over_acquirable_witness :
  docs (final (lock 1 "a" "y" (Some second) None) lapsed_lease_of_x) !! "a" =
    Some (Fields true (Some "y") (Some (4 * second)) None).
Proof.
  rewrite (proj2 (lock_takes_over_acquirable lapsed_lease_of_x 0 "a" "y" (Some second) None
                    (Fields true (Some "x") (Some 0) (Some second)) eq_refl eq_refl I
                    (or_intror (ex_intro _ second (conj eq_refl eq_refl))))).
  reflexivity.
Defined.

(** When the document of the key is held at the clock reading of the
    conditional update, a call of [lock] leaves the collection as it was,
    with or without a timeout. *)
Theorem lock_leaves_held_document (w : world (gmap string fields)) (fuel : nat)
    (key owner : string) (timeout expire : option Z) (d : fields) :
  docs w !! key = Some d ->
  held_at (clock w (S (S (reads_for_expire expire + reads w)))) d ->
  docs (final (lock fuel key owner timeout expire) w) = docs w.
Proof.
  intros Hd [Hl He]. destruct w as [m clk rd]. simpl in Hd.
  unfold final, lock, reads_for_expire in *.
  assert (Hm : forall t, match d_expire d with Some e => t < e | None => True end ->
                         matches (FreeOrExpired key (bson_datetime t)) d = false).
  { intros t Ht. simpl. rewrite Hl. simpl. destruct (d_expire d) as [e |]; [| reflexivity].
    apply Z.ltb_ge. pose proof (bson_datetime_le t). lia. }
  revert He.
  destruct expire as [dt |]; simpl; [destruct (dt =? 0); simpl |];
    intros He; rewrite Hd; simpl; (destruct (truthy timeout); simpl; [| reflexivity]);
    (destruct fuel as [| fuel]; simpl; [reflexivity |]);
    unfold mongo_find; simpl query_id; rewrite Hd; rewrite (Hm _ He); reflexivity.
Qed.

Lemma lock_leaves_held_document_witness :
  docs (final (lock 1 "a" "y" (Some second) (Some second)) held_by_x) = docs held_by_x.
Proof.
  apply (lock_leaves_held_document held_by_x 1 "a" "y" (Some second) (Some second)
           (Fields true (Some "x") (Some 0) None) eq_refl).
  split; [reflexivity | exact I].
Defined.

(** ** [release] *)

(** A [release] by someone who is not the owner of the document, or on a
    key without document, raises and leaves the collection as it was. *)
Theorem release_by_other_owner_changes_nothing (w : world (gmap string fields))
    (key owner : string) :
  (forall d, docs w !! key = Some d -> d_owner d <> Some owner) ->
  run (release key owner) w =
    (Raised MongoLockException, w,
     [EvFindAndModify (ByIdOwner key owner) (Fields false None None None) None]).
Proof.
  intros Hno. destruct w as [m clk rd]. simpl in *. unfold mongo_find. simpl.
  destruct (m !! key) as [d |] eqn:Hd; [| reflexivity].
  rewrite bool_decide_eq_false_2 by (apply Hno; reflexivity). reflexivity.
Qed.

Lemma release_by_other_owner_changes_nothing_witness :
  final (release "a" "y") held_by_x = held_by_x.
Proof.
  unfold final.
  rewrite (release_by_other_owner_changes_nothing held_by_x "a" "y"); [reflexivity |].
  intros d [= <-]. discriminate.
Defined.



(** ** [touch] *)

(** [touch] for a key without document, or whose document has another
    owner, raises after one read: no clock reading, no write. *)
Theorem touch_of_unowned_key_raises (w : world (gmap string fields)) (key owner : string) :
  (forall d, docs w !! key = Some d -> d_owner d <> Some owner) ->
  run (touch key owner) w =
    (Raised MongoLockException, w, [EvFindOne (ByIdOwner key owner) None]).
Proof.
  intros Hno. destruct w as [m clk rd]. simpl in *. unfold mongo_find. simpl.
  destruct (m !! key) as [d |] eqn:Hd; [| reflexivity].
  rewrite bool_decide_eq_false_2 by (apply Hno; reflexivity). reflexivity.
Qed.

Lemma touch_of_unowned_key_raises_witness :
  result (touch "a" "y") leased_to_x = Raised MongoLockException.
Proof.
  unfold result.
  rewrite (touch_of_unowned_key_raises leased_to_x "a" "y"); [reflexivity |].
  intros d [= <-]. discriminate.
Defined.

(** [touch] on a lock that has no expiry returns after one read and changes
    nothing. *)
Theorem touch_without_expiry_is_noop (w : world (gmap string fields)) (key owner : string)
    (d : fields) :
  docs w !! key = Some d ->
  d_owner d = Some owner ->
  d_expire d = None ->
  run (touch key owner) w =
    (Returned tt, w, [EvFindOne (ByIdOwner key owner) (Some d)]).
Proof.
  intros Hd Ho He. destruct w as [m clk rd]. simpl in *. unfold mongo_find. simpl.
  rewrite Hd. rewrite bool_decide_eq_true_2 by exact Ho. rewrite He. reflexivity.
Qed.

Lemma touch_without_expiry_is_noop_witness :
  final (touch "a" "x") held_by_x = held_by_x.
Proof.
  unfold final.
  rewrite (touch_without_expiry_is_noop held_by_x "a" "x"
             (Fields true (Some "x") (Some 0) None)); reflexivity.
Defined.

(** [touch] does not look at the clock to decide: on a document of the
    caller with an expiry [e] and a creation time [c], when [now + (e - c)]
    is a datetime Python can hold, it returns and the expiry stored is
    [now + (e - c)] to the millisecond, also when [e] is already in the
    past; it never checks [locked]. *)
Theorem touch_renews_from_now (w : world (gmap string fields)) (key owner : string)
    (d : fields) (c e : datetime) :
  docs w !! key = Some d ->
  d_owner d = Some owner ->
  d_created d = Some c ->
  d_expire d = Some e ->
  representable (clock w (reads w) + (e - c)) ->
  result (touch key owner) w = Returned tt /\
  docs (final (touch key owner) w) !! key =
    Some (Fields (d_locked d) (d_owner d) (d_created d)
            (Some (bson_datetime (clock w (reads w) + (e - c))))).
Proof.
  intros Hd Ho Hc He _. unfold result, final.
  rewrite (touch_run w key owner d c e Hd Ho Hc He). simpl.
  split; [reflexivity | apply lookup_insert_eq].
Qed.

Lemma touch_renews_from_now_witness :
  docs (final (touch "a" "x") leased_at_odd_time) !! "a" =
    Some (Fields true (Some "x") (Some 0) (Some 11234000)).
Proof.
  apply (touch_renews_from_now leased_at_odd_time "a" "x"
           (Fields true (Some "x") (Some 0) (Some (10 * second))) 0 (10 * second));
    try reflexivity.
  vm_compute. split; discriminate.
Defined.

(** The first renewal after an acquisition by insert, when the sums are
    datetimes Python can hold.  [lock] stored the expiry dated by its first
    clock reading and [created] dated by its second, both to the
    millisecond, and [touch] writes its own reading plus their difference,
    to the millisecond: the lease it grants is the one asked for, less the
    time between the two readings of [lock], within two milliseconds. *)
Theorem first_renewal_after_insert (w : world (gmap string fields)) (fuel : nat)
    (key owner : string) (timeout : option Z) (dt : Z) :
  docs w !! key = None ->
  dt <> 0 ->
  let t0 := clock w (reads w) in
  let t1 := clock w (S (reads w)) in
  let t2 := clock w (S (S (reads w))) in
  let expire0 := bson_datetime (t0 + dt) in
  let created0 := bson_datetime t1 in
  let renewed := bson_datetime (t2 + (expire0 - created0)) in
  representable (t0 + dt) ->
  representable (t2 + (expire0 - created0)) ->
  let session := _ <- lock fuel key owner timeout (Some dt) ;; touch key owner in
  result session w = Returned tt /\
  docs (final session w) !! key =
    Some (Fields true (Some owner) (Some created0) (Some renewed)) /\
  t2 + (dt - (t1 - t0)) - 2000 < renewed < t2 + (dt - (t1 - t0)) + 1000.
Proof.
  intros Hd Hdt t0 t1 t2 expire0 created0 renewed _ _ session.
  subst session renewed expire0 created0 t0 t1 t2.
  split; [| split].
  - destruct w as [m clk rd]. simpl in Hd. unfold result, lock.
    apply Z.eqb_neq in Hdt. simpl. rewrite Hdt. simpl. rewrite Hd. simpl.
    unfold mongo_find. simpl query_id. rewrite lookup_insert_eq. simpl.
    rewrite bool_decide_eq_true_2 by reflexivity. simpl.
    unfold mongo_find. simpl query_id. rewrite lookup_insert_eq. simpl.
    rewrite bool_decide_eq_true_2 by reflexivity. reflexivity.
  - destruct w as [m clk rd]. simpl in Hd. unfold final, lock.
    apply Z.eqb_neq in Hdt. simpl. rewrite Hdt. simpl. rewrite Hd. simpl.
    unfold mongo_find. simpl query_id. rewrite lookup_insert_eq. simpl.
    rewrite bool_decide_eq_true_2 by reflexivity. simpl.
    unfold mongo_find. simpl query_id. rewrite lookup_insert_eq. simpl.
    rewrite bool_decide_eq_true_2 by reflexivity. simpl.
    apply lookup_insert_eq.
  - pose proof (bson_datetime_le (clock w (reads w) + dt)).
    pose proof (bson_datetime_gt (clock w (reads w) + dt)).
    pose proof (bson_datetime_le (clock w (S (reads w)))).
    pose proof (bson_datetime_gt (clock w (S (reads w)))).
    pose proof (bson_datetime_le
                  (clock w (S (S (reads w)))
                   + (bson_datetime (clock w (reads w) + dt)
                      - bson_datetime (clock w (S (reads w)))))).
    pose proof (bson_datetime_gt
                  (clock w (S (S (reads w)))
                   + (bson_datetime (clock w (reads w) + dt)
                      - bson_datetime (clock w (S (reads w)))))).
    lia.
Qed.

Lemma first_renewal_after_insert_witness :
  docs (final (_ <- lock 1 "a" "x" None (Some (10 * second)) ;; touch "a" "x")
          empty_at_odd_time) !! "a" =
    Some (Fields true (Some "x") (Some 1234000) (Some 14000000)).
Proof.
  apply (first_renewal_after_insert empty_at_odd_time 1 "a" "x" None (10 * second));
    try reflexivity; try discriminate; vm_compute; split; discriminate.
Defined.

(** ** [get_lock_info] *)

(** After [lock] on a fresh key, when the expiry asked for is a datetime
    Python can hold, [get_lock_info] returns the document that was written:
    locked, with the caller as owner, and with the [created] and [expire] of
    the call to the millisecond. *)
Theorem get_lock_info_after_lock (w : world (gmap string fields)) (fuel : nat)
    (key owner : string) (timeout expire : option Z) :
  docs w !! key = None ->
  expiry_representable w expire ->
  result (_ <- lock fuel key owner timeout expire ;; get_lock_info key) w =
    Returned (Some (bson_fields
                      (Fields true (Some owner)
                         (Some (clock w (reads_for_expire expire + reads w)%nat))
                         (expire_in w expire)))).
Proof.
  intros Hd _. destruct w as [m clk rd]. simpl in Hd.
  unfold result, lock, expire_in, reads_for_expire.
  destruct expire as [dt |]; simpl; [destruct (dt =? 0); simpl |];
    rewrite Hd; simpl; unfold mongo_find; simpl query_id;
    rewrite lookup_insert_eq; reflexivity.
Qed.

Lemma get_lock_info_after_lock_witness :
  result (_ <- lock 1 "a" "x" None (Some second) ;; get_lock_info "a") empty_at_odd_time =
    Returned (Some (Fields true (Some "x") (Some 1234000) (Some 2234000))).
Proof.
  apply (get_lock_info_after_lock empty_at_odd_time 1 "a" "x" None (Some second)).
  - reflexivity.
  - vm_compute. repeat split; discriminate.
Defined.

(** ** What every method leaves alone *)

(** The operations of [lock]: the clock, one insert under the key and
    conditional updates of the key. *)
Lemma lock_performs_only (P : forall X : Type, op X -> bool) (fuel : nat)
    (key owner : string) (timeout expire : option Z) :
  P _ utcnow = false ->
  (forall d, P _ (coll_insert key d) = false) ->
  (forall t u, P _ (coll_update (FreeOrExpired key t) u) = false) ->
  never P (lock fuel key owner timeout expire).
Proof.
  intros Hnow Hins Hupd. unfold lock. apply never_bind.
  - destruct (truthy expire); simpl; [| exact I].
    split; [exact Hnow |]. intros now. destruct expire; exact I.
  - intros e. simpl. split; [exact Hnow |]. intros created.
    split; [apply Hins |]. intros [|]; [exact I |].
    destruct (negb (truthy timeout)); simpl; [exact I |].
    split; [exact Hnow |]. intros start_time.
    induction fuel as [| fuel IH]; simpl; [exact I |].
    split; [exact Hnow |]. intros dtnow. split; [apply Hupd |]. intros n.
    destruct (1 <? n); simpl; exact I.
Qed.

Lemma release_performs_only (P : forall X : Type, op X -> bool) (key owner : string) :
  (forall d, P _ (coll_find_and_modify (ByIdOwner key owner) d) = false) ->
  never P (release key owner).
Proof.
  intros Hfm. unfold release. simpl. split; [apply Hfm |].
  intros [st |]; [destruct (negb (d_locked st)) |]; exact I.
Qed.

Lemma touch_performs_only (P : forall X : Type, op X -> bool) (key owner : string) :
  P _ utcnow = false ->
  P _ (coll_find_one (ByIdOwner key owner)) = false ->
  (forall u, P _ (coll_update (ByIdOwner key owner) u) = false) ->
  never P (touch key owner).
Proof.
  intros Hnow Hfind Hupd. unfold touch. simpl. split; [exact Hfind |].
  intros [l |]; [| exact I]. destruct (d_expire l) as [e |]; [| exact I].
  simpl. split; [exact Hnow |]. intros now. destruct (d_created l) as [c |]; [| exact I].
  simpl. split; [apply Hupd |]. intros n. exact I.
Qed.

(** A program that writes under no other key leaves the other documents. *)
Lemma writes_other_frame {A : Type} (key key' : string) (p : prog A)
    (w : world (gmap string fields)) :
  never (op_writes_other key) p ->
  key' <> key ->
  docs (final p w) !! key' = docs w !! key'.
Proof.
  intros Hp Hne. unfold final. revert w Hp.
  induction p as [a | e | | X o k IH]; intros w Hp; try reflexivity.
  destruct Hp as [Ho Hk]. simpl.
  destruct (exec o w) as [x w1] eqn:Hx.
  specialize (IH x w1 (Hk x)). destruct (run (k x) w1) as [[r w2] tr].
  simpl in *. rewrite IH. clear IH Hk.
  destruct w as [m clk rd].
  destruct o; simpl in *; try (injection Hx as <- <-; reflexivity).
  - apply negb_false_iff, bool_decide_eq_true_1 in Ho. subst key0.
    destruct (m !! key); injection Hx as <- <-; simpl; [reflexivity |].
    apply lookup_insert_ne. congruence.
  - apply negb_false_iff, bool_decide_eq_true_1 in Ho.
    destruct (mongo_find (bson_query q) m); injection Hx as <- <-; simpl; [| reflexivity].
    rewrite query_id_bson. apply lookup_insert_ne. congruence.
  - apply negb_false_iff, bool_decide_eq_true_1 in Ho.
    destruct (mongo_find (bson_query q) m); injection Hx as <- <-; simpl; [| reflexivity].
    rewrite query_id_bson. apply lookup_insert_ne. congruence.
Qed.

(** [lock], [release] and [touch] for one key leave the document of every
    other key as it was. *)
Theorem methods_leave_other_keys (w : world (gmap string fields)) (fuel : nat)
    (key owner key' : string) (timeout expire : option Z) :
  key' <> key ->
  docs (final (lock fuel key owner timeout expire) w) !! key' = docs w !! key' /\
  docs (final (release key owner) w) !! key' = docs w !! key' /\
  docs (final (touch key owner) w) !! key' = docs w !! key'.
Proof.
  intros Hne.
  assert (Hk : negb (bool_decide (key = key)) = false)
    by (rewrite bool_decide_eq_true_2; reflexivity).
  repeat split; apply (writes_other_frame key); try exact Hne.
  - apply lock_performs_only; [reflexivity | intros; exact Hk | intros; exact Hk].
  - apply release_performs_only. intros; exact Hk.
  - apply touch_performs_only; [reflexivity | reflexivity | intros; exact Hk].
Qed.

Lemma methods_leave_other_keys_witness :
  docs (final (lock 1 "b" "y" (Some second) None) held_by_x) !! "a" = docs held_by_x !! "a".
Proof.
  apply (methods_leave_other_keys held_by_x 1 "b" "y" "a" (Some second) None).
  discriminate.
Defined.

(** No method sleeps, in any store: neither [lock], whose loop was meant to
    wait between attempts, nor [release], [touch] or [get_lock_info]. *)
Theorem methods_never_sleep {C : Type} `{Collection C} (w : world C) (fuel : nat)
    (key owner : string) (timeout expire : option Z) :
  existsb is_sleep (trace (lock fuel key owner timeout expire) w) = false /\
  existsb is_sleep (trace (release key owner) w) = false /\
  existsb is_sleep (trace (touch key owner) w) = false /\
  existsb is_sleep (trace (get_lock_info key) w) = false.
Proof.
  repeat split; apply (never_trace op_is_sleep); try apply is_sleep_event_of.
  - apply lock_performs_only; reflexivity.
  - apply release_performs_only; reflexivity.
  - apply touch_performs_only; reflexivity.
Qed.

(** In any store a call of [lock] makes at most one conditional update, and
    what it does is the same for every number of iterations allowed to its
    loop: the loop body is never run a second time. *)
Theorem lock_attempts_at_most_once {C : Type} `{Collection C} (w : world C) (fuel : nat)
    (key owner : string) (timeout expire : option Z) :
  run (lock (S fuel) key owner timeout expire) w = run (lock 1 key owner timeout expire) w /\
  (length (filter (fun e => is_update e = true)
             (trace (lock (S fuel) key owner timeout expire) w)) <= 1)%nat.
Proof.
  destruct w as [c clk rd]. unfold trace, lock.
  destruct expire as [dt |]; simpl; [destruct (dt =? 0); simpl |];
    (collection_step; [split; [reflexivity | simpl; lia] |]);
    (destruct (truthy timeout); simpl; [| split; [reflexivity | simpl; lia]]);
    collection_step; destruct (1 <? _); simpl; (split; [reflexivity | simpl; lia]).
Qed.

(** ** The shape of the documents *)

Lemma well_formed_insert (m : gmap string fields) (key : string) (d : fields) :
  well_formed_docs m -> well_formed d -> well_formed_docs (<[key := d]> m).
Proof. intros Hm Hd. apply map_Forall_insert_2; assumption. Qed.

Lemma well_formed_locked (owner : string) (created : datetime) (expire : option datetime) :
  well_formed (Fields true (Some owner) (Some created) expire).
Proof. split; eexists; reflexivity. Qed.

(** A well-formed document that has an owner is locked and has a creation
    time. *)
Lemma well_formed_owned (d : fields) (owner : string) :
  well_formed d -> d_owner d = Some owner -> d_locked d = true /\ is_Some (d_created d).
Proof.
  unfold well_formed. destruct (d_locked d).
  - intros [_ Hc] _. split; [reflexivity | exact Hc].
  - intros -> Ho. discriminate Ho.
Qed.


(** [lock], [release] and [touch] keep the collection in the shape the
    class writes: every locked document names an owner and a creation
    time, every unlocked one is all null. *)
Theorem methods_keep_documents_well_formed (w : world (gmap string fields)) (fuel : nat)
    (key owner : string) (timeout expire : option Z) :
  well_formed_docs (docs w) ->
  well_formed_docs (docs (final (lock fuel key owner timeout expire) w)) /\
  well_formed_docs (docs (final (release key owner) w)) /\
  well_formed_docs (docs (final (touch key owner) w)).
Proof.
  intros Hw. destruct w as [m clk rd]. simpl in Hw. unfold final. split; [| split].
  - unfold lock.
    destruct expire as [dt |]; simpl; [destruct (dt =? 0); simpl |];
      (destruct (m !! key) as [d |] eqn:Hd; simpl;
       [| apply well_formed_insert; [exact Hw | apply well_formed_locked]]);
      (destruct (truthy timeout); simpl; [| exact Hw]);
      (destruct fuel as [| fuel]; simpl; [exact Hw |]);
      (destruct (mongo_find _ m); simpl; [| exact Hw]);
      (apply well_formed_insert; [exact Hw | apply well_formed_locked]).
  - simpl. destruct (mongo_find _ m) as [d |]; simpl.
    + destruct (d_locked d); simpl; (apply well_formed_insert; [exact Hw | reflexivity]).
    + exact Hw.
  - simpl. unfold mongo_find at 1. simpl query_id.
    destruct (m !! key) as [d |] eqn:Hd; [| exact Hw].
    destruct (matches (ByIdOwner key owner) d) eqn:Hm; [| exact Hw].
    apply bool_decide_eq_true_1 in Hm.
    destruct (well_formed_owned d owner (Hw key d Hd) Hm) as [Hl [c Hc]].
    destruct (d_expire d) as [e |]; simpl; [| exact Hw].
    rewrite Hc. simpl. unfold mongo_find. simpl query_id. rewrite Hd. simpl.
    rewrite bool_decide_eq_true_2 by exact Hm. simpl.
    apply well_formed_insert; [exact Hw |].
    unfold well_formed. cbn [d_locked d_owner d_created]. rewrite Hl.
    split; [exists owner; exact Hm | exists c; exact Hc].
Qed.

Lemma methods_keep_documents_well_formed_witness :
  well_formed_docs (docs (final (lock 1 "a" "y" (Some second) (Some second)) lapsed_lease_of_x)).
Proof.
  apply (methods_keep_documents_well_formed lapsed_lease_of_x 1 "a" "y" (Some second) (Some second)).
  unfold lapsed_lease_of_x. simpl. apply map_Forall_singleton.
  split; eexists; reflexivity.
Defined.



(** In a well-formed collection [release] returns exactly when the
    document of the key names the caller as owner; the expiry plays no
    part, so an owner can release a lease that has run out as long as
    nobody took the lock over. *)
Theorem release_returns_iff_owner (w : world (gmap string fields)) (key owner : string) :
  well_formed_docs (docs w) ->
  result (release key owner) w = Returned tt <->
  exists d, docs w !! key = Some d /\ d_owner d = Some owner.
Proof.
  intros Hw. destruct w as [m clk rd]. simpl in Hw. unfold result. simpl.
  unfold mongo_find. simpl query_id.
  destruct (m !! key) as [d |] eqn:Hd.
  - destruct (matches (ByIdOwner key owner) d) eqn:Hm.
    + apply bool_decide_eq_true_1 in Hm.
      destruct (well_formed_owned d owner (Hw key d Hd) Hm) as [Hl _].
      simpl. rewrite Hl. simpl. split; [intros _; exists d; auto | reflexivity].
    + apply bool_decide_eq_false_1 in Hm. simpl.
      split; [discriminate | intros [d' [[= <-] Ho]]; contradiction].
  - simpl. split; [discriminate | intros [d' [Hd' _]]; discriminate].
Qed.

Lemma release_returns_iff_owner_witness :
  result (release "a" "x") lapsed_lease_of_x = Returned tt.
Proof.
  apply (release_returns_iff_owner lapsed_lease_of_x "a" "x").
  - unfold lapsed_lease_of_x. simpl. apply map_Forall_singleton.
    split; eexists; reflexivity.
  - eexists. split; reflexivity.
Defined.

(** ** The context manager, further *)




(** When [lock] returned [True], the body returned and the document of the
    key is then locked by the caller, the block calls [release] last, the
    document ends in the free state and the block returns. *)
Theorem with_block_releases_on_return (w w1 w2 : world (gmap string fields)) (fuel : nat)
    (key owner : string) (timeout expire : option Z) (body : prog unit)
    (tr1 tr2 : list event) (d : fields) :
  run (lock fuel key owner timeout expire) w = (Returned true, w1, tr1) ->
  run body w1 = (Returned tt, w2, tr2) ->
  docs w2 !! key = Some d ->
  d_owner d = Some owner ->
  d_locked d = true ->
  run (with_stmt (__call__ fuel key owner timeout expire) body) w =
    (Returned tt,
     set_docs w2 (<[key := Fields false None None None]> (docs w2)),
     tr1 ++ tr2 ++
       [EvFindAndModify (ByIdOwner key owner) (Fields false None None None) (Some d)]).
Proof.
  intros Hlock Hbody Hd Ho Hl.
  rewrite (with_stmt_body_returns w fuel key owner timeout expire body w1 w2 tr1 tr2 Hlock Hbody).
  destruct w2 as [m2 clk2 rd2]. simpl in *. unfold mongo_find. simpl. rewrite Hd.
  rewrite bool_decide_eq_true_2 by exact Ho. simpl. rewrite Hl. reflexivity.
Qed.

Lemma with_block_releases_on_return_witness :
  docs (final (with_stmt (__call__ 1 "a" "x" None None) (touch "a" "x")) empty_world) !! "a" =
    Some (Fields false None None None).
Proof.
  unfold final.
  rewrite (with_block_releases_on_return empty_world _ _ 1 "a" "x" None None (touch "a" "x")
             _ _ (Fields true (Some "x") (Some 0) None) eq_refl eq_refl eq_refl eq_refl eq_refl).
  reflexivity.
Defined.

(** When [lock] returned [True] and the body returned but the document of
    the key is not the caller's (it never was, or the body released it, or
    the lock was taken over), the block has run the body and raises
    [MongoLockException] from its [release], which changes nothing. *)
Theorem with_block_without_ownership_raises (w w1 w2 : world (gmap string fields))
    (fuel : nat) (key owner : string) (timeout expire : option Z) (body : prog unit)
    (tr1 tr2 : list event) :
  run (lock fuel key owner timeout expire) w = (Returned true, w1, tr1) ->
  run body w1 = (Returned tt, w2, tr2) ->
  (forall d, docs w2 !! key = Some d -> d_owner d <> Some owner) ->
  run (with_stmt (__call__ fuel key owner timeout expire) body) w =
    (Raised MongoLockException, w2,
     tr1 ++ tr2 ++
       [EvFindAndModify (ByIdOwner key owner) (Fields false None None None) None]).
Proof.
  intros Hlock Hbody Hno.
  rewrite (with_stmt_body_returns w fuel key owner timeout expire body w1 w2 tr1 tr2 Hlock Hbody).
  destruct w2 as [m2 clk2 rd2]. simpl in *. unfold mongo_find. simpl.
  destruct (m2 !! key) as [d |] eqn:Hd; [| reflexivity].
  rewrite bool_decide_eq_false_2 by (apply Hno; reflexivity). reflexivity.
Qed.

Lemma with_block_without_ownership_raises_witness :
  result (with_stmt (__call__ 1 "a" "y" (Some second) None) (Ret tt)) held_by_x
    = Raised MongoLockException.
Proof.
  unfold result.
  rewrite (with_block_without_ownership_raises held_by_x _ _ 1 "a" "y" (Some second) None
             (Ret tt) _ _ eq_refl eq_refl); [reflexivity |].
  intros d [= <-]. discriminate.
Defined.

(** ** Mutual exclusion of the conditional update *)

Lemma winners_insert (ts : list (prog pyval)) (i : nat) (p p' : prog pyval) :
  ts !! i = Some p ->
  returned_True p = false ->
  winners (<[i := p']> ts) = (winners ts + (if returned_True p' then 1 else 0))%nat.
Proof.
  unfold winners. revert i. induction ts as [| q ts IH]; intros [| i] Hi Hp; try discriminate.
  - injection Hi as ->. simpl. rewrite !filter_cons.
    destruct (decide (returned_True p = true)) as [Hq | _]; [congruence |].
    destruct (returned_True p'); simpl.
    + destruct (decide (true = true)); [simpl; lia | congruence].
    + destruct (decide (false = true)); [congruence | lia].
  - simpl in *. rewrite !filter_cons.
    destruct (decide (returned_True q = true)); simpl; rewrite (IH i Hi Hp); lia.
Qed.

(** A document that is locked and has no expiry is matched by no
    conditional update. *)
Lemma held_forever_not_found (m : gmap string fields) (key : string) (dtnow : datetime)
    (d : fields) :
  m !! key = Some d -> d_locked d = true -> d_expire d = None ->
  mongo_find (FreeOrExpired key dtnow) m = None.
Proof.
  intros Hd Hl He. unfold mongo_find. simpl. rewrite Hd, Hl, He. reflexivity.
Qed.

Lemma interleave_try_exclusive (key : string) (sched : list nat) :
  forall (ts : list (prog pyval)) (w : world (gmap string fields)),
    Forall (try_point key) ts ->
    exclusive key ts (docs w) ->
    exclusive key (interleave sched ts w).1.1 (docs (interleave sched ts w).1.2).
Proof.
  induction sched as [| i sched IH]; intros ts w Hts Hex; [exact Hex |].
  cbn [interleave].
  destruct (ts !! i) as [p |] eqn:Hi; [| apply IH; assumption].
  pose proof (Forall_lookup_1 _ _ _ _ Hts Hi) as Hp.
  destruct Hp as [owner | owner dtnow | b].
  - (* the thread reads the clock *)
    cbn [_try_get_lock call bind exec].
    match goal with
    | |- context [interleave sched (<[i := ?p']> ts) ?w1] =>
        specialize (IH (<[i := p']> ts) w1);
        destruct (interleave sched (<[i := p']> ts) w1) as [[ts' w'] tr]
    end.
    apply IH.
    + apply Forall_insert; [exact Hts |].
      exact (try_update key owner (clock w (reads w))).
    + destruct Hex as [Hle Hone]. unfold exclusive.
      rewrite (winners_insert ts i _ _ Hi eq_refl). cbn [returned_True bind].
      rewrite Nat.add_0_r. split; [exact Hle | exact Hone].
  - (* the thread sends its conditional update *)
    destruct w as [m clk rd]. destruct Hex as [Hle Hone]. cbn [docs] in Hle, Hone.
    cbn [call bind exec docs c_update mongo bson_query].
    destruct (mongo_find (FreeOrExpired key (bson_datetime dtnow)) m) as [d |] eqn:Hf;
      cbn [set_docs docs clock reads query_id];
      match goal with
      | |- context [interleave sched (<[i := ?p']> ts) ?w1] =>
          specialize (IH (<[i := p']> ts) w1);
          destruct (interleave sched (<[i := p']> ts) w1) as [[ts' w'] tr]
      end; apply IH.
    + apply Forall_insert; [exact Hts | exact (try_done key true)].
    + assert (Hzero : winners ts = 0%nat).
      { destruct (winners ts) as [| [| n]] eqn:Hn; [reflexivity | | lia].
        destruct (Hone eq_refl) as [d' [Hd' [Hl' He']]].
        rewrite (held_forever_not_found m key (bson_datetime dtnow) d' Hd' Hl' He') in Hf.
        discriminate. }
      unfold exclusive. rewrite (winners_insert ts i _ _ Hi eq_refl). rewrite Hzero.
      cbn. split; [lia |]. intros _. eexists. rewrite lookup_insert_eq.
      split; [reflexivity | split; reflexivity].
    + apply Forall_insert; [exact Hts | exact (try_done key false)].
    + unfold exclusive. rewrite (winners_insert ts i _ _ Hi eq_refl). cbn.
      rewrite Nat.add_0_r. split; [exact Hle | exact Hone].
  - (* the thread has returned *)
    apply IH; assumption.
Qed.

(** Any number of concurrent calls of [_try_get_lock] for one key that ask
    for no expiry, interleaved in any order at the level of their clock
    readings and conditional updates: on MongoDB at most one of them
    returns [True], and then the document is locked without expiry. *)
Theorem try_get_lock_mutual_exclusion (w : world (gmap string fields)) (key : string)
    (owners : list string) (sched : list nat) :
  let threads := map (fun owner => _try_get_lock key owner None) owners in
  let ts := (interleave sched threads w).1.1 in
  let w' := (interleave sched threads w).1.2 in
  (winners ts <= 1)%nat /\
  ((winners ts = 1)%nat ->
   exists d, docs w' !! key = Some d /\ d_locked d = true /\ d_expire d = None).
Proof.
  apply (interleave_try_exclusive key sched).
  - apply Forall_map, Forall_forall. intros owner _. apply try_start.
  - assert (Hzero : winners (map (fun owner => _try_get_lock key owner None) owners) = 0%nat).
    { unfold winners. induction owners as [| o owners IH]; [reflexivity |].
      simpl. rewrite filter_cons. simpl.
      destruct (decide (false = true)); [congruence | exact IH]. }
    unfold exclusive. rewrite Hzero. split; [lia | discriminate].
Qed.

(** The bound is reached: of two threads on a released key, scheduled one
    after the other, the first wins and the second does not. *)
Example try_get_lock_one_winner :
  let threads := [_try_get_lock "a" "x" None; _try_get_lock "a" "y" None] in
  (interleave [0; 0; 1; 1]%nat threads released).1.1 =
    [Ret (PyBool true); Ret (PyBool false)].
Proof. reflexivity. Qed.

(** ** Witnesses of the composition lemmas *)

Lemma touch_twice_expire_witness :
  d_expire <$> docs (final (_ <- touch "a" "x" ;; touch "a" "x") leased_at_odd_time) !! "a" =
    Some (Some 12468000).
Proof.
  refine (proj1 (touch_twice_expire leased_at_odd_time "a" "x"
                   (Fields true (Some "x") (Some 0) (Some (10 * second))) 0 (10 * second)
                   eq_refl eq_refl eq_refl eq_refl _ _));
    vm_compute; split; discriminate.
Defined.

Lemma with_stmt_body_raises_witness :
  run (with_stmt (__call__ 1 "a" "x" None None)
         (_ <- touch "a" "x" ;; Raise (Exception "boom"))) empty_world =
    (Raised (Exception "boom"),
     World {[ "a" := Fields true (Some "x") (Some 0) None ]} (ticking 1000) 1,
     [EvNow 0; EvInsert "a" (Fields true (Some "x") (Some 0) None) Inserted;
      EvFindOne (ByIdOwner "a" "x") (Some (Fields true (Some "x") (Some 0) None))]).
Proof.
  apply (with_stmt_body_raises empty_world 1 "a" "x" None None
           (_ <- touch "a" "x" ;; Raise (Exception "boom")) (Exception "boom")
           (World {[ "a" := Fields true (Some "x") (Some 0) None ]} (ticking 1000) 1)
           (World {[ "a" := Fields true (Some "x") (Some 0) None ]} (ticking 1000) 1)
           [EvNow 0; EvInsert "a" (Fields true (Some "x") (Some 0) None) Inserted]
           [EvFindOne (ByIdOwner "a" "x") (Some (Fields true (Some "x") (Some 0) None))]);
    reflexivity.
Defined.
